(** * Zones within a camera's field of view

    A shallow embedding of [viseron/components/nvr/zone.py] and the
    properties of [Zone.filter_zone] and [Zone.objects_in_zone_setter].

    Python objects are mutable and shared, so detected objects live in a
    store indexed by their identity and lists hold references.  The code is
    written in a state-and-exception monad whose state is the store, the zone
    ([self]), the events handed to the dispatcher and the log of the calls
    made to the collaborators of the zone. *)

From Stdlib Require Import ZArith Ascii String.
From stdpp Require Import base functions gmap strings list.

(** ** Python values *)

(** The identity of a detected object ([id(obj)]). *)
Definition ObjRef : Type := nat.
(** The identity of a shared frame; the zone never looks inside a frame. *)
Definition FrameRef : Type := nat.
(** [camera.resolution]: width and height. *)
Definition Resolution : Type := (Z * Z)%type.
(** The array of points built by [generate_numpy_from_coordinates]. *)
Definition Polygon : Type := list (Z * Z).

Inductive Exn : Type :=
  | KeyError (key : string)
  | ValueError (msg : string).

Inductive Result (A : Type) : Type :=
  | Ok (a : A)
  | Raise (e : Exn).
Arguments Ok {A} a.
Arguments Raise {A} e.

(** ** [str.format], for templates made of text and [{name}] fields *)

Fixpoint kwargs_get (name : string) (kwargs : list (string * string)) : option string :=
  match kwargs with
  | [] => None
  | (k, v) :: rest => if String.eqb k name then Some v else kwargs_get name rest
  end.

(** [field] is [Some f] while the characters of a replacement field are
    being read.  Escaped braces and format specifications are not part of
    the fragment: the one template of the module has neither. *)
Fixpoint str_format_from (kwargs : list (string * string)) (field : option string)
    (template : string) : Result string :=
  match template, field with
  | EmptyString, None => Ok EmptyString
  | EmptyString, Some _ => Raise (ValueError "expected '}' before end of string"%string)
  | String c rest, None =>
      if Ascii.eqb c "{"%char then str_format_from kwargs (Some EmptyString) rest
      else if Ascii.eqb c "}"%char then
        Raise (ValueError "Single '}' encountered in format string"%string)
      else match str_format_from kwargs None rest with
           | Ok r => Ok (String c r)
           | Raise e => Raise e
           end
  | String c rest, Some f =>
      if Ascii.eqb c "}"%char then
        match kwargs_get f kwargs with
        | None => Raise (KeyError f)
        | Some v =>
            match str_format_from kwargs None rest with
            | Ok r => Ok (v +:+ r)
            | Raise e => Raise e
            end
        end
      else str_format_from kwargs (Some (f +:+ String c EmptyString)) rest
  end.

Definition str_format (template : string) (kwargs : list (string * string)) : Result string :=
  str_format_from kwargs None template.

Definition EVENT_OBJECTS_IN_ZONE : string :=
  "{camera_identifier}/zone/{zone_name}/objects"%string.

(** ** The collaborators of a zone *)

Module DetectedObject.
(** Modelled from the spec: the class [DetectedObject] of
    [viseron.domains.object_detector.detected_object] lies outside this
    module.  The spec gives it a label, a geometric extent and two mutable
    flags; the extent is left abstract. *)
Record t (Extent : Type) : Type := mk {
  label : string;
  extent : Extent;
  relevant : bool;
  trigger_recorder : bool
}.
Arguments mk {Extent} _ _ _ _.
Arguments label {Extent} _.
Arguments extent {Extent} _.
Arguments relevant {Extent} _.
Arguments trigger_recorder {Extent} _.

(** [obj.relevant = b] *)
Definition set_relevant {Extent} (b : bool) (o : t Extent) : t Extent :=
  mk (label o) (extent o) b (trigger_recorder o).
(** [obj.trigger_recorder = b] *)
Definition set_trigger_recorder {Extent} (b : bool) (o : t Extent) : t Extent :=
  mk (label o) (extent o) (relevant o) b.
End DetectedObject.

Module Filter.
(** Modelled from the spec: the class [Filter] of [viseron.helpers.filter]
    lies outside this module.  The spec describes it as a capability with
    a test [passes(object) -> bool] (the method [filter_object]) and a
    property [triggers_recorder] (the attribute [trigger_recorder]).  An
    instance is taken to be truthy, as the test
    [self._object_filters.get(obj.label) and ...] of [filter_zone] expects
    of a filter that is there. *)
Record t (Obj : Type) : Type := mk {
  filter_object : Obj → bool;
  trigger_recorder : bool
}.
Arguments mk {Obj} _ _.
Arguments filter_object {Obj} _ _.
Arguments trigger_recorder {Obj} _.
End Filter.

(** [vis.data[CAMERA_DOMAIN][camera_identifier]], as far as the zone reads it. *)
Record Camera : Type := mkCamera {
  identifier : string;
  resolution : Resolution
}.

(** A call made by [filter_zone] to a collaborator, with what it returned. *)
Inductive Call : Type :=
  | FiltersGet (lbl : string) (found : bool)
  | FiltersGetitem (lbl : string)
  | FilterObject (obj : ObjRef) (passed : bool)
  | ObjectInPolygon (obj : ObjRef) (inside : bool).

Section Data.
Context {Extent CoordinatesConfig LabelConfig : Type}.

(** [zone_config], read at the keys [CONFIG_COORDINATES],
    [CONFIG_ZONE_NAME] and [CONFIG_ZONE_LABELS]. *)
Record ZoneConfig : Type := mkZoneConfig {
  CONFIG_COORDINATES : CoordinatesConfig;
  CONFIG_ZONE_NAME : string;
  CONFIG_ZONE_LABELS : list LabelConfig
}.

(** The attributes of a [Zone]; [camera] is [self._camera]. *)
Record Zone : Type := mkZone {
  camera : Camera;
  coordinates : Polygon;
  camera_resolution : Resolution;
  name : string;
  objects_in_zone : list ObjRef;
  object_filters : gmap string (Filter.t (DetectedObject.t Extent))
}.

Definition set_objects_in_zone (objects : list ObjRef) (z : Zone) : Zone :=
  mkZone (camera z) (coordinates z) (camera_resolution z) (name z) objects
    (object_filters z).

(** The payload of the event: a dict with four keys.  The entry ["zone"]
    is [self]; a listener that follows the reference while the event is
    dispatched sees the zone as it is then, which is what is recorded. *)
Record EventData : Type := mkEventData {
  data_camera_identifier : string;
  data_shared_frame : FrameRef;
  data_zone : Zone;
  data_objects : list ObjRef
}.

Record Event : Type := mkEvent {
  topic : string;
  data : EventData
}.

(** The state of the program: the store of detected objects, the zone
    ([self]), the events handed to [vis.dispatch_event], oldest first, and
    the calls made so far. *)
Record State : Type := mkState {
  heap : ObjRef → DetectedObject.t Extent;
  self : Zone;
  dispatched : list Event;
  calls : list Call
}.

End Data.

Arguments ZoneConfig : clear implicits.
Arguments Zone : clear implicits.
Arguments EventData : clear implicits.
Arguments Event : clear implicits.
Arguments State : clear implicits.

(** ** A camera with one zone

    The scenarios of the specification: a frame of 100 by 100 pixels, a
    square zone over all of it, and detections given by their centre.  The
    statements proved below for every zone are run on it. *)

Module Scenario.

Definition Extent : Type := (Z * Z)%type.

Definition Obj : Type := DetectedObject.t Extent.

#[global] Instance Obj_eq_dec : EqDecision Obj.
Proof. solve_decision. Defined.

(** Containment for a rectangle with sides along the axes: the centre lies
    within the bounds of the vertices. *)
Definition in_bounds (_ : Resolution) (d : Obj) (polygon : Polygon) : bool :=
  let '(x, y) := DetectedObject.extent d in
  existsb (λ p, p.1 <=? x)%Z polygon && existsb (λ p, x <=? p.1)%Z polygon
  && existsb (λ p, p.2 <=? y)%Z polygon && existsb (λ p, y <=? p.2)%Z polygon.

(** An [__eq__] that compares all the attributes, as a dataclass does. *)
Definition value_eq (a b : Obj) : bool := bool_decide (a = b).

Definition person_filter : Filter.t Obj := Filter.mk (λ _, true) false.
Definition truck_filter : Filter.t Obj := Filter.mk (λ _, true) true.
Definition dog_filter : Filter.t Obj := Filter.mk (λ _, false) false.

Definition cam : Camera := mkCamera "cam1" (100, 100)%Z.

Definition cameras : gmap string Camera := {["cam1"%string := cam]}.

Definition square : Polygon := [(0, 0); (100, 0); (100, 100); (0, 100)]%Z.

Definition zone_config : ZoneConfig Polygon (string * Filter.t Obj) :=
  mkZoneConfig square "yard"
    [("person"%string, person_filter); ("truck"%string, truck_filter);
     ("dog"%string, dog_filter)].

Definition filters : gmap string (Filter.t Obj) :=
  <["person"%string := person_filter]>
    (<["truck"%string := truck_filter]> (<["dog"%string := dog_filter]> ∅)).

Definition zone : Zone Extent := mkZone cam square (100, 100)%Z "yard" [] filters.

(** Object 0 is a person in the zone, 1 a car (no filter for cars), 2 a
    person outside, 3 a dog (the filter rejects it), 4 a person in the zone
    that already triggers the recorder, 5 a truck in the zone; every other
    object is a person in the zone that was found relevant before. *)
Definition store (o : ObjRef) : Obj :=
  match o with
  | 0 => DetectedObject.mk "person" (50, 50)%Z false false
  | 1 => DetectedObject.mk "car" (50, 50)%Z false false
  | 2 => DetectedObject.mk "person" (150, 50)%Z false false
  | 3 => DetectedObject.mk "dog" (50, 50)%Z false false
  | 4 => DetectedObject.mk "person" (20, 20)%Z false true
  | 5 => DetectedObject.mk "truck" (60, 60)%Z false false
  | _ => DetectedObject.mk "person" (50, 50)%Z true false
  end.

(** The zone before its first evaluation. *)
Definition fresh : State Extent := mkState store zone [] [].

(** The zone after an evaluation that accepted object 7. *)
Definition seen : State Extent := mkState store (set_objects_in_zone [7] zone) [] [].

(** The comparison of a class without [__eq__]: no two distinct objects are
    equal. *)
Definition identity_eq (a b : Obj) : bool := false.


(** A configuration with two entries for persons. *)
Definition zone_config_twice : ZoneConfig Polygon (string * Filter.t Obj) :=
  mkZoneConfig square "yard"
    [("person"%string, dog_filter); ("truck"%string, truck_filter);
     ("person"%string, person_filter)].

End Scenario.

Section Zone.
Context {Extent CoordinatesConfig LabelConfig Mask : Type}.

Abbreviation Obj := (DetectedObject.t Extent).
Abbreviation ZoneConfig := (ZoneConfig CoordinatesConfig LabelConfig).
Abbreviation Zone := (Zone Extent).
Abbreviation EventData := (EventData Extent).
Abbreviation Event := (Event Extent).
Abbreviation State := (State Extent).

(** Modelled from the spec: [helpers.object_in_polygon], the
    point-in-polygon capability [contains(resolution, object, polygon)]. *)
Variable object_in_polygon : Resolution → Obj → Polygon → bool.

(** [DetectedObject.__eq__], which the list comparison of
    [objects_in_zone_setter] falls back on for two distinct objects.  A
    class that does not define it compares by identity only, which is
    [fun _ _ => false] here. *)
Variable obj_eq : Obj → Obj → bool.

(** [helpers.generate_numpy_from_coordinates] *)
Variable generate_numpy_from_coordinates : CoordinatesConfig → Polygon.

(** The constructor [Filter(camera_resolution, object_filter, mask)]. *)
Variable Filter_init : Resolution → LabelConfig → Mask → Filter.t Obj.

(** [object_filter[CONFIG_LABEL_LABEL]] *)
Variable CONFIG_LABEL_LABEL : LabelConfig → string.

Definition M (A : Type) : Type := State → Result (A * State).

#[local] Instance M_ret : MRet M := λ A (a : A) s, Ok (a, s).

#[local] Instance M_bind : MBind M := λ A B (k : A → M B) (m : M A) s,
  match m s with
  | Ok (a, s') => k a s'
  | Raise e => Raise e
  end.

Definition lift {A} (r : Result A) : M A :=
  λ s, match r with Ok a => Ok (a, s) | Raise e => Raise e end.

Definition gets {A} (f : State → A) : M A := λ s, Ok (f s, s).

Definition modify (f : State → State) : M unit := λ s, Ok (tt, f s).

Definition log (c : Call) : M unit :=
  modify (λ s, mkState (heap s) (self s) (dispatched s) (calls s ++ [c])).

(** [obj.label] *)
Definition getattr_label (obj : ObjRef) : M string :=
  gets (λ s, DetectedObject.label (heap s obj)).

(** [obj.relevant = b] *)
Definition setattr_relevant (obj : ObjRef) (b : bool) : M unit :=
  modify (λ s, mkState (<[obj := DetectedObject.set_relevant b (heap s obj)]> (heap s))
                 (self s) (dispatched s) (calls s)).

(** [obj.trigger_recorder = b] *)
Definition setattr_trigger_recorder (obj : ObjRef) (b : bool) : M unit :=
  modify (λ s, mkState (<[obj := DetectedObject.set_trigger_recorder b (heap s obj)]> (heap s))
                 (self s) (dispatched s) (calls s)).

(** [self._objects_in_zone = objects] *)
Definition setattr_objects_in_zone (objects : list ObjRef) : M unit :=
  modify (λ s, mkState (heap s) (set_objects_in_zone objects (self s))
                 (dispatched s) (calls s)).

(** [self._object_filters.get(lbl)] *)
Definition object_filters_get (lbl : string) : M (option (Filter.t Obj)) :=
  z ← gets self;
  let r := object_filters z !! lbl in
  log (FiltersGet lbl (bool_decide (is_Some r)));;
  mret r.

(** [self._object_filters[lbl]] *)
Definition object_filters_getitem (lbl : string) : M (Filter.t Obj) :=
  z ← gets self;
  log (FiltersGetitem lbl);;
  match object_filters z !! lbl with
  | Some f => mret f
  | None => lift (Raise (KeyError lbl))
  end.

(** [f.filter_object(obj)] *)
Definition call_filter_object (f : Filter.t Obj) (obj : ObjRef) : M bool :=
  h ← gets heap;
  let r := Filter.filter_object f (h obj) in
  log (FilterObject obj r);;
  mret r.

(** [helpers.object_in_polygon(self._camera_resolution, obj, self._coordinates)] *)
Definition call_object_in_polygon (obj : ObjRef) : M bool :=
  z ← gets self;
  h ← gets heap;
  let r := object_in_polygon (camera_resolution z) (h obj) (coordinates z) in
  log (ObjectInPolygon obj r);;
  mret r.

(** Modelled from the spec: [self._vis.dispatch_event(topic, data)], the
    event-dispatch capability [publish(topic, payload)].  It hands the event
    over and returns; the events are kept in the order they were handed. *)
Definition dispatch_event (t : string) (d : EventData) : M unit :=
  modify (λ s, mkState (heap s) (self s) (dispatched s ++ [mkEvent t d]) (calls s)).

(** [a == b] for two lists of objects: equal lengths and, element by
    element, the same object or two objects that [__eq__] equates. *)
Fixpoint list_eq (h : ObjRef → Obj) (a b : list ObjRef) : bool :=
  match a, b with
  | [], [] => true
  | x :: a', y :: b' =>
      (bool_decide (x = y) || obj_eq (h x) (h y)) && list_eq h a' b'
  | _, _ => false
  end.

(** ** [Zone.__init__] *)

(** The loop filling [self._object_filters]: a later entry for a label
    replaces an earlier one. *)
Fixpoint init_object_filters (res : Resolution) (mask : Mask)
    (labels : list LabelConfig) (filters : gmap string (Filter.t Obj))
    : gmap string (Filter.t Obj) :=
  match labels with
  | [] => filters
  | object_filter :: rest =>
      init_object_filters res mask rest
        (<[CONFIG_LABEL_LABEL object_filter := Filter_init res object_filter mask]> filters)
  end.

(** [cameras] is [vis.data[CAMERA_DOMAIN]] and [mask] is
    [nvr_config[CONFIG_OBJECT_DETECTOR][CONFIG_MASK]]. *)
Definition Zone_init (cameras : gmap string Camera) (camera_identifier : string)
    (mask : Mask) (zone_config : ZoneConfig) : Result Zone :=
  match cameras !! camera_identifier with
  | None => Raise (KeyError camera_identifier)
  | Some cam =>
      let coords := generate_numpy_from_coordinates (CONFIG_COORDINATES zone_config) in
      let res := resolution cam in
      Ok (mkZone cam coords res (CONFIG_ZONE_NAME zone_config) []
            (init_object_filters res mask (CONFIG_ZONE_LABELS zone_config) ∅))
  end.

(** ** [Zone.objects_in_zone_setter] *)

Definition objects_in_zone_setter (shared_frame : FrameRef) (objects : list ObjRef)
    : M unit :=
  h ← gets heap;
  z ← gets self;
  if list_eq h objects (objects_in_zone z) then mret tt
  else
    setattr_objects_in_zone objects;;
    z ← gets self;
    t ← lift (str_format EVENT_OBJECTS_IN_ZONE
                [("camera_identifier"%string, identifier (camera z));
                 ("zone_name"%string, name z)]);
    dispatch_event t (mkEventData (identifier (camera z)) shared_frame z objects).

(** ** [Zone.filter_zone] *)

(** One turn of the loop; [objects_in_zone] is the local list. *)
Definition filter_zone_body (obj : ObjRef) (objects_in_zone : list ObjRef)
    : M (list ObjRef) :=
  lbl ← getattr_label obj;
  found ← object_filters_get lbl;
  passed ← match found with
           | None => mret false
           | Some _ =>
               lbl ← getattr_label obj;
               f ← object_filters_getitem lbl;
               call_filter_object f obj
           end;
  if passed : bool then
    inside ← call_object_in_polygon obj;
    if inside : bool then
      setattr_relevant obj true;;
      let objects_in_zone := objects_in_zone ++ [obj] in
      lbl ← getattr_label obj;
      f ← object_filters_getitem lbl;
      (if Filter.trigger_recorder f then setattr_trigger_recorder obj true else mret tt);;
      mret objects_in_zone
    else mret objects_in_zone
  else mret objects_in_zone.

Fixpoint filter_zone_loop (objects : list ObjRef) (objects_in_zone : list ObjRef)
    : M (list ObjRef) :=
  match objects with
  | [] => mret objects_in_zone
  | obj :: rest =>
      objects_in_zone ← filter_zone_body obj objects_in_zone;
      filter_zone_loop rest objects_in_zone
  end.

Definition filter_zone (shared_frame : FrameRef) (objects : list ObjRef) : M unit :=
  objects_in_zone ← filter_zone_loop objects [];
  objects_in_zone_setter shared_frame objects_in_zone.

(** ** What one turn of the loop does

    The outcome of [filter_zone_body] written out as a function of the
    state, to reason about the loop without unfolding the monad each
    time.  [filter_zone_body_run] below proves that the code computes it. *)

(** The three tests of the loop on the object as it is in the store. *)
Definition accepted (z : Zone) (d : Obj) : bool :=
  match object_filters z !! DetectedObject.label d with
  | None => false
  | Some f =>
      Filter.filter_object f d
      && object_in_polygon (camera_resolution z) d (coordinates z)
  end.

(** The flags of an accepted object after its turn. *)
Definition marked (z : Zone) (d : Obj) : Obj :=
  let d' := DetectedObject.set_relevant true d in
  match object_filters z !! DetectedObject.label d with
  | Some f =>
      if Filter.trigger_recorder f then DetectedObject.set_trigger_recorder true d'
      else d'
  | None => d'
  end.

(** The calls of one turn, in the order they are made. *)
Definition body_calls (z : Zone) (obj : ObjRef) (d : Obj) : list Call :=
  let lbl := DetectedObject.label d in
  match object_filters z !! lbl with
  | None => [FiltersGet lbl false]
  | Some f =>
      let passed := Filter.filter_object f d in
      let inside := object_in_polygon (camera_resolution z) d (coordinates z) in
      [FiltersGet lbl true; FiltersGetitem lbl; FilterObject obj passed]
      ++ (if passed then
            ObjectInPolygon obj inside :: (if inside then [FiltersGetitem lbl] else [])
          else [])
  end.

(** The store after the assignments of one turn: [obj.relevant = True]
    and then, for a triggering filter, [obj.trigger_recorder = True]. *)
Definition body_heap (z : Zone) (obj : ObjRef) (h : ObjRef → Obj) : ObjRef → Obj :=
  let d := h obj in
  if accepted z d then
    let h1 := <[obj := DetectedObject.set_relevant true d]> h in
    match object_filters z !! DetectedObject.label d with
    | Some f =>
        if Filter.trigger_recorder f then
          <[obj := DetectedObject.set_trigger_recorder true
                     (DetectedObject.set_relevant true d)]> h1
        else h1
    | None => h1
    end
  else h.

Definition body_state (obj : ObjRef) (s : State) : State :=
  mkState (body_heap (self s) obj (heap s)) (self s) (dispatched s)
    (calls s ++ body_calls (self s) obj (heap s obj)).

Definition body_list (obj : ObjRef) (objects_in_zone : list ObjRef) (s : State)
    : list ObjRef :=
  if accepted (self s) (heap s obj) then objects_in_zone ++ [obj] else objects_in_zone.

Fixpoint loop_state (objects : list ObjRef) (s : State) : State :=
  match objects with
  | [] => s
  | obj :: rest => loop_state rest (body_state obj s)
  end.

Fixpoint loop_list (objects : list ObjRef) (objects_in_zone : list ObjRef) (s : State)
    : list ObjRef :=
  match objects with
  | [] => objects_in_zone
  | obj :: rest => loop_list rest (body_list obj objects_in_zone s) (body_state obj s)
  end.

(** The label has a filter and the filter lets the object through: the
    first two tests of the loop. *)
Definition passes_filter (z : Zone) (d : Obj) : bool :=
  match object_filters z !! DetectedObject.label d with
  | None => false
  | Some f => Filter.filter_object f d
  end.

Fixpoint loop_calls (objects : list ObjRef) (s : State) : list Call :=
  match objects with
  | [] => []
  | obj :: rest =>
      body_calls (self s) obj (heap s obj) ++ loop_calls rest (body_state obj s)
  end.

(** Two references are equal for [==] when they are the same object or
    [__eq__] equates the objects they point to. *)
Definition ref_eq (h : ObjRef → Obj) (x y : ObjRef) : Prop :=
  x = y ∨ obj_eq (h x) (h y) = true.

(** ** What [objects_in_zone_setter] does *)

Definition event_topic (z : Zone) : string :=
  identifier (camera z) +:+ ("/zone/" +:+ (name z +:+ "/objects")).

Definition setter_event (shared_frame : FrameRef) (objects : list ObjRef) (z : Zone)
    : Event :=
  mkEvent (event_topic z)
    (mkEventData (identifier (camera z)) shared_frame
       (set_objects_in_zone objects z) objects).

Definition setter_state (shared_frame : FrameRef) (objects : list ObjRef) (s : State)
    : State :=
  if list_eq (heap s) objects (objects_in_zone (self s)) then s
  else mkState (heap s) (set_objects_in_zone objects (self s))
         (dispatched s ++ [setter_event shared_frame objects (self s)]) (calls s).

(** [filter_zone shared_frame objects] run from [s] returns: its loop
    leaves the local list [acc], the setter is called with it, and the
    call ends in [s']. *)
Definition filter_zone_returns (shared_frame : FrameRef) (objects : list ObjRef)
    (s : State) (acc : list ObjRef) (s' : State) : Prop :=
  ∃ s1, filter_zone_loop objects [] s = Ok (acc, s1)
        ∧ objects_in_zone_setter shared_frame acc s1 = Ok (tt, s')
        ∧ filter_zone shared_frame objects s = Ok (tt, s').

(** The object already carries the flags that the zone gives to the
    objects it accepts. *)
Definition flags_raised (z : Zone) (d : Obj) : Prop := marked z d = d.

(** ** Vocabulary for the properties beyond one call *)

(** What [__init__] fixes in a zone: everything but the stored list. *)
Definition same_config (z z' : Zone) : Prop :=
  camera z' = camera z
  ∧ coordinates z' = coordinates z
  ∧ camera_resolution z' = camera_resolution z
  ∧ name z' = name z
  ∧ object_filters z' = object_filters z.


Definition is_get_call (c : Call) : bool :=
  match c with FiltersGet _ _ => true | _ => false end.

Definition is_filter_call (c : Call) : bool :=
  match c with FilterObject _ _ => true | _ => false end.

Definition is_polygon_call (c : Call) : bool :=
  match c with ObjectInPolygon _ _ => true | _ => false end.

Definition is_polygon_hit (c : Call) : bool :=
  match c with ObjectInPolygon _ true => true | _ => false end.

(** How many calls of a kind a log holds. *)
Definition count_calls (kind : Call → bool) (log : list Call) : nat :=
  length (List.filter kind log).

(** ** The code computes these outcomes *)

Ltac unfold_monad :=
  repeat progress
    unfold mbind, M_bind, mret, M_ret, lift, gets, modify, log, getattr_label,
      object_filters_get, object_filters_getitem, call_filter_object,
      call_object_in_polygon, setattr_relevant, setattr_trigger_recorder,
      setattr_objects_in_zone, dispatch_event in *.

Lemma filter_zone_body_run obj acc s :
  filter_zone_body obj acc s = Ok (body_list obj acc s, body_state obj s).
Proof.
  destruct s as [h z ev cs].
  unfold filter_zone_body, body_list, body_state, body_heap, body_calls, accepted.
  unfold_monad. cbn [heap self dispatched calls].
  destruct (object_filters z !! DetectedObject.label (h obj)) as [f|] eqn:Hf; cbn.
  2: { reflexivity. }
  rewrite Hf. cbn.
  destruct (Filter.filter_object f (h obj)) eqn:Hp; cbn.
  2: { by rewrite <- !app_assoc. }
  destruct (object_in_polygon (camera_resolution z) (h obj) (coordinates z)) eqn:Hi; cbn.
  2: { by rewrite <- !app_assoc. }
  rewrite !fn_lookup_insert. cbn. rewrite Hf. cbn.
  destruct (Filter.trigger_recorder f); cbn.
  - rewrite !fn_lookup_insert. by rewrite <- !app_assoc.
  - by rewrite <- !app_assoc.
Qed.

Lemma filter_zone_loop_run objects acc s :
  filter_zone_loop objects acc s = Ok (loop_list objects acc s, loop_state objects s).
Proof.
  revert acc s. induction objects as [|obj rest IH]; intros acc s; [done|].
  cbn [filter_zone_loop loop_list loop_state].
  unfold mbind, M_bind. rewrite filter_zone_body_run. apply IH.
Qed.

(** ** The store along the loop *)

Lemma body_heap_other z obj h o : o ≠ obj → body_heap z obj h o = h o.
Proof.
  intros Hne. unfold body_heap.
  destruct (accepted z (h obj)); [|done].
  destruct (object_filters z !! DetectedObject.label (h obj)) as [f|];
    [destruct (Filter.trigger_recorder f)|];
    by rewrite ?fn_lookup_insert_ne.
Qed.

Lemma body_heap_rejected z obj h :
  accepted z (h obj) = false → body_heap z obj h = h.
Proof. intros Hr. unfold body_heap. by rewrite Hr. Qed.

Lemma body_heap_accepted z obj h :
  accepted z (h obj) = true → body_heap z obj h obj = marked z (h obj).
Proof.
  intros Ha. unfold body_heap, marked. rewrite Ha.
  destruct (object_filters z !! DetectedObject.label (h obj)) as [f|];
    [destruct (Filter.trigger_recorder f)|];
    by rewrite ?fn_lookup_insert.
Qed.

Lemma marked_label z d : DetectedObject.label (marked z d) = DetectedObject.label d.
Proof.
  unfold marked.
  destruct (object_filters z !! DetectedObject.label d) as [f|];
    [destruct (Filter.trigger_recorder f)|]; done.
Qed.

Lemma marked_relevant z d : DetectedObject.relevant (marked z d) = true.
Proof.
  unfold marked.
  destruct (object_filters z !! DetectedObject.label d) as [f|];
    [destruct (Filter.trigger_recorder f)|]; done.
Qed.

Lemma marked_trigger_recorder z d f :
  object_filters z !! DetectedObject.label d = Some f →
  DetectedObject.trigger_recorder (marked z d)
  = DetectedObject.trigger_recorder d || Filter.trigger_recorder f.
Proof.
  intros Hf. unfold marked. rewrite Hf.
  destruct (Filter.trigger_recorder f); cbn; by rewrite ?orb_true_r, ?orb_false_r.
Qed.

Lemma marked_idemp z d : marked z (marked z d) = marked z d.
Proof.
  unfold marked at 1. rewrite marked_label.
  destruct d as [l e r t]. unfold marked. cbn.
  destruct (object_filters z !! l) as [f|];
    [destruct (Filter.trigger_recorder f) eqn:Ht|]; cbn; by rewrite ?Ht.
Qed.

Lemma accepted_has_filter z d :
  accepted z d = true →
  ∃ f, object_filters z !! DetectedObject.label d = Some f
       ∧ Filter.filter_object f d = true
       ∧ object_in_polygon (camera_resolution z) d (coordinates z) = true.
Proof.
  unfold accepted. destruct (object_filters z !! DetectedObject.label d) as [f|]; [|done].
  intros [??]%andb_true_iff. eauto.
Qed.

Lemma loop_state_self objects s : self (loop_state objects s) = self s.
Proof. revert s. induction objects as [|obj rest IH]; intros s; [done|]. cbn. by rewrite IH. Qed.

Lemma loop_state_dispatched objects s :
  dispatched (loop_state objects s) = dispatched s.
Proof. revert s. induction objects as [|obj rest IH]; intros s; [done|]. cbn. by rewrite IH. Qed.

(** The local list only grows at its end. *)
Lemma loop_list_app objects acc s :
  loop_list objects acc s = acc ++ loop_list objects [] s.
Proof.
  revert acc s. induction objects as [|obj rest IH]; intros acc s; cbn.
  - by rewrite app_nil_r.
  - rewrite (IH (body_list obj acc s)), (IH (body_list obj [] s)).
    unfold body_list. destruct (accepted (self s) (heap s obj)); [|done].
    by rewrite <- app_assoc.
Qed.

Lemma loop_list_cons obj rest s :
  loop_list (obj :: rest) [] s
  = (if accepted (self s) (heap s obj) then [obj] else [])
    ++ loop_list rest [] (body_state obj s).
Proof. cbn [loop_list]. by rewrite loop_list_app. Qed.

Lemma loop_list_sublist objects s : loop_list objects [] s `sublist_of` objects.
Proof.
  revert s. induction objects as [|obj rest IH]; intros s.
  - constructor.
  - rewrite loop_list_cons. destruct (accepted (self s) (heap s obj)); cbn.
    + by apply sublist_skip.
    + by apply sublist_cons.
Qed.

(** An object is in the local list exactly when the batch holds it and it
    passes the three tests as it is before the loop. *)
Lemma loop_list_elem_of objects s o :
  o ∈ loop_list objects [] s ↔ o ∈ objects ∧ accepted (self s) (heap s o) = true.
Proof.
  revert s. induction objects as [|obj rest IH]; intros s.
  - cbn. split; [by intros ?%elem_of_nil | by intros [?%elem_of_nil _]].
  - rewrite loop_list_cons, elem_of_app, IH, elem_of_cons. cbn.
    destruct (accepted (self s) (heap s obj)) eqn:Ha.
    + rewrite list_elem_of_singleton. split.
      * intros [->|[Hin Hacc]]; [by auto|].
        destruct (decide (o = obj)) as [->|Hne]; [by auto|].
        rewrite body_heap_other in Hacc by done. auto.
      * intros [[->|Hin] Hacc]; [by auto|].
        destruct (decide (o = obj)) as [->|Hne]; [by auto|].
        right. rewrite body_heap_other by done. auto.
    + rewrite body_heap_rejected by done. split.
      * intros [[]%elem_of_nil|[Hin Hacc]]. auto.
      * intros [[->|Hin] Hacc]; [congruence|auto].
Qed.

(** When the tests do not read the flags, the local list is the batch
    filtered by the tests. *)
Lemma loop_list_filter objects s :
  (∀ d, accepted (self s) (marked (self s) d) = accepted (self s) d) →
  loop_list objects [] s = List.filter (λ o, accepted (self s) (heap s o)) objects.
Proof.
  revert s. induction objects as [|obj rest IH]; intros s Hflags; [done|].
  rewrite loop_list_cons, IH by done. cbn [List.filter self heap body_state].
  assert (Hsame : ∀ o, accepted (self s) (body_heap (self s) obj (heap s) o)
                       = accepted (self s) (heap s o)).
  { intros o. destruct (decide (o = obj)) as [->|Hne]; [|by rewrite body_heap_other].
    destruct (accepted (self s) (heap s obj)) eqn:Ha.
    - by rewrite body_heap_accepted, Hflags.
    - by rewrite body_heap_rejected. }
  rewrite (List.filter_ext _ _ Hsame).
  by destruct (accepted (self s) (heap s obj)).
Qed.

Lemma loop_heap_not_elem_of objects s o :
  o ∉ loop_list objects [] s → heap (loop_state objects s) o = heap s o.
Proof.
  revert s. induction objects as [|obj rest IH]; intros s; [done|].
  rewrite loop_list_cons. cbn [loop_state]. intros Hnot.
  rewrite IH by (intros Hin; apply Hnot, elem_of_app; auto). cbn.
  destruct (accepted (self s) (heap s obj)) eqn:Ha.
  - apply body_heap_other. intros ->. apply Hnot, elem_of_app. left.
    by apply list_elem_of_singleton.
  - by rewrite body_heap_rejected.
Qed.

Lemma loop_heap_elem_of objects s o :
  o ∈ loop_list objects [] s →
  heap (loop_state objects s) o = marked (self s) (heap s o).
Proof.
  revert s. induction objects as [|obj rest IH]; intros s.
  - by intros ?%elem_of_nil.
  - rewrite loop_list_cons. cbn [loop_state]. intros Hin.
    destruct (decide (o ∈ loop_list rest [] (body_state obj s))) as [Hr|Hr].
    + rewrite IH by done. cbn.
      destruct (accepted (self s) (heap s obj)) eqn:Ha.
      * destruct (decide (o = obj)) as [->|Hne].
        -- rewrite body_heap_accepted by done. apply marked_idemp.
        -- by rewrite body_heap_other.
      * by rewrite body_heap_rejected.
    + rewrite loop_heap_not_elem_of by done. cbn.
      apply elem_of_app in Hin as [Hin|Hin]; [|done].
      destruct (accepted (self s) (heap s obj)) eqn:Ha; [|by apply elem_of_nil in Hin].
      apply list_elem_of_singleton in Hin as ->. by apply body_heap_accepted.
Qed.

(** ** The calls along the loop *)

Lemma loop_state_calls objects s :
  calls (loop_state objects s) = calls s ++ loop_calls objects s.
Proof.
  revert s. induction objects as [|obj rest IH]; intros s; cbn.
  - by rewrite app_nil_r.
  - rewrite IH. cbn. by rewrite <- app_assoc.
Qed.

Lemma accepted_passes_filter z d : accepted z d = true → passes_filter z d = true.
Proof.
  intros (f & Hf & Hp & _)%accepted_has_filter. unfold passes_filter. by rewrite Hf.
Qed.

Lemma body_heap_label z obj h o :
  DetectedObject.label (body_heap z obj h o) = DetectedObject.label (h o).
Proof.
  destruct (decide (o = obj)) as [->|Hne]; [|by rewrite body_heap_other].
  destruct (accepted z (h obj)) eqn:Ha.
  - rewrite body_heap_accepted by done. apply marked_label.
  - by rewrite body_heap_rejected.
Qed.

(** Within one turn, the containment test comes fourth, after a lookup
    that found a filter, the indexing and a successful filter test. *)
Lemma body_calls_guarded z obj d pre o r post :
  body_calls z obj d = pre ++ ObjectInPolygon o r :: post →
  o = obj ∧ passes_filter z d = true
  ∧ pre = [FiltersGet (DetectedObject.label d) true;
           FiltersGetitem (DetectedObject.label d);
           FilterObject obj true].
Proof.
  unfold body_calls, passes_filter.
  destruct (object_filters z !! DetectedObject.label d) as [f|].
  2: { destruct pre as [|? [|??]]; intros; simplify_eq. }
  destruct (Filter.filter_object f d);
    [destruct (object_in_polygon (camera_resolution z) d (coordinates z))|];
    cbn; intros Heq;
    repeat match goal with
           | H : _ :: _ = ?p ++ _ :: _ |- _ => destruct p; cbn in H; simplify_eq
           | H : [] = ?p ++ _ :: _ |- _ => destruct p; discriminate H
           end; done.
Qed.

Lemma body_calls_elem_of z obj d o r :
  ObjectInPolygon o r ∈ body_calls z obj d → o = obj ∧ passes_filter z d = true.
Proof.
  intros (pre & post & Heq)%list_elem_of_split.
  apply body_calls_guarded in Heq. tauto.
Qed.

Lemma loop_calls_guarded objects s pre o r post :
  loop_calls objects s = pre ++ ObjectInPolygon o r :: post →
  ∃ pre' f,
    object_filters (self s) !! DetectedObject.label (heap s o) = Some f
    ∧ pre = pre' ++ [FiltersGet (DetectedObject.label (heap s o)) true;
                     FiltersGetitem (DetectedObject.label (heap s o));
                     FilterObject o true].
Proof.
  revert s pre. induction objects as [|obj rest IH]; intros s pre Heq.
  - destruct pre; discriminate.
  - cbn [loop_calls] in Heq.
    apply app_eq_inv in Heq as [(k & Hbody & Hrest)|(k & Hpre & Hrest)].
    + destruct k as [|c k].
      * cbn in Hrest. symmetry in Hrest.
        apply (IH _ []) in Hrest as (pre' & f & _ & Hnil).
        by destruct pre'.
      * cbn in Hrest. simplify_eq.
        apply body_calls_guarded in Hbody as (-> & Hp & ->).
        unfold passes_filter in Hp.
        destruct (object_filters (self s) !! DetectedObject.label (heap s obj)) as [f|] eqn:Hf;
          [|done].
        by exists [], f.
    + subst pre.
      apply IH in Hrest as (pre' & f & Hf & ->).
      cbn in Hf. rewrite body_heap_label in Hf.
      exists (body_calls (self s) obj (heap s obj) ++ pre'), f. split; [done|].
      cbn. rewrite body_heap_label. by rewrite <- app_assoc.
Qed.

Lemma loop_calls_not_invoked objects s o r :
  passes_filter (self s) (heap s o) = false →
  ObjectInPolygon o r ∉ loop_calls objects s.
Proof.
  revert s. induction objects as [|obj rest IH]; intros s Hfail.
  - apply not_elem_of_nil.
  - cbn [loop_calls]. rewrite elem_of_app. intros [Hin|Hin].
    + apply body_calls_elem_of in Hin as [-> Hp]. congruence.
    + revert Hin. apply IH. cbn.
      destruct (decide (o = obj)) as [->|Hne]; [|by rewrite body_heap_other].
      rewrite body_heap_rejected; [done|].
      destruct (accepted (self s) (heap s obj)) eqn:Ha; [|done].
      apply accepted_passes_filter in Ha. congruence.
Qed.

(** ** The comparison of two lists *)

Lemma list_eq_Forall2 h a b : list_eq h a b = true ↔ Forall2 (ref_eq h) a b.
Proof.
  revert b. induction a as [|x a IH]; intros [|y b]; cbn.
  - split; [constructor|done].
  - split; [done|by intros ?%Forall2_nil_cons_inv].
  - split; [done|by intros ?%Forall2_cons_nil_inv].
  - rewrite andb_true_iff, orb_true_iff, bool_decide_eq_true, IH, Forall2_cons.
    done.
Qed.

Lemma list_eq_ext h h' a b :
  (∀ o, o ∈ a ++ b → h' o = h o) → list_eq h' a b = list_eq h a b.
Proof.
  revert b. induction a as [|x a IH]; intros [|y b] Hext; cbn; try done.
  rewrite IH.
  - rewrite !Hext; [done| |]; rewrite elem_of_app, !elem_of_cons; auto.
  - intros o Hin. apply Hext. rewrite elem_of_app, !elem_of_cons.
    apply elem_of_app in Hin as []; auto.
Qed.

Lemma str_format_topic cam nm :
  str_format EVENT_OBJECTS_IN_ZONE
    [("camera_identifier"%string, cam); ("zone_name"%string, nm)]
  = Ok (cam +:+ ("/zone/" +:+ (nm +:+ "/objects"))).
Proof. reflexivity. Qed.

Lemma objects_in_zone_setter_run shared_frame objects s :
  objects_in_zone_setter shared_frame objects s
  = Ok (tt, setter_state shared_frame objects s).
Proof.
  unfold objects_in_zone_setter, setter_state. unfold_monad.
  destruct (list_eq (heap s) objects (objects_in_zone (self s))); [done|].
  cbn [self]. by rewrite str_format_topic.
Qed.

Lemma filter_zone_run shared_frame objects s :
  filter_zone shared_frame objects s
  = Ok (tt, setter_state shared_frame (loop_list objects [] s) (loop_state objects s)).
Proof.
  unfold filter_zone. unfold mbind, M_bind.
  by rewrite filter_zone_loop_run, objects_in_zone_setter_run.
Qed.

Lemma setter_state_heap shared_frame objects s :
  heap (setter_state shared_frame objects s) = heap s.
Proof. unfold setter_state. by destruct (list_eq _ _ _). Qed.

Lemma setter_state_cases shared_frame objects s :
  (list_eq (heap s) objects (objects_in_zone (self s)) = true
   ∧ setter_state shared_frame objects s = s)
  ∨ (list_eq (heap s) objects (objects_in_zone (self s)) = false
     ∧ setter_state shared_frame objects s
       = mkState (heap s) (set_objects_in_zone objects (self s))
           (dispatched s ++ [setter_event shared_frame objects (self s)]) (calls s)).
Proof. unfold setter_state. destruct (list_eq _ _ _); auto. Qed.

Lemma setter_state_calls shared_frame objects s :
  calls (setter_state shared_frame objects s) = calls s.
Proof. unfold setter_state. by destruct (list_eq _ _ _). Qed.

(** [filter_zone] always returns: nothing in it raises, the indexing of
    [self._object_filters] included. *)
Lemma filter_zone_returns_run shared_frame objects s :
  filter_zone_returns shared_frame objects s (loop_list objects [] s)
    (setter_state shared_frame (loop_list objects [] s) (loop_state objects s)).
Proof.
  exists (loop_state objects s).
  by rewrite filter_zone_loop_run, objects_in_zone_setter_run, filter_zone_run.
Qed.

Lemma ref_eq_trans h x y w :
  (∀ a b c, obj_eq a b = true → obj_eq b c = true → obj_eq a c = true) →
  ref_eq h x y → ref_eq h y w → ref_eq h x w.
Proof.
  intros Htrans [->|Hxy] [->|Hyw]; unfold ref_eq; eauto.
Qed.

Lemma list_eq_trans h a b c :
  (∀ a b c, obj_eq a b = true → obj_eq b c = true → obj_eq a c = true) →
  list_eq h a b = true → list_eq h b c = true → list_eq h a c = true.
Proof.
  intros Htrans. rewrite !list_eq_Forall2. intros Hab. revert c.
  induction Hab as [|x y a b Hxy Hab IH]; intros c Hbc; [done|].
  inversion Hbc as [|? w ? c' Hyw Hbc']; subst.
  constructor; [by eapply ref_eq_trans|by apply IH].
Qed.

(** The stored objects keep their raised flags over a call, whether the
    stored list is replaced or not. *)
Lemma stored_flags_raised_preserved shared_frame objects s acc s' :
  (∀ o, o ∈ objects_in_zone (self s) → flags_raised (self s) (heap s o)) →
  filter_zone_returns shared_frame objects s acc s' →
  ∀ o, o ∈ objects_in_zone (self s') → flags_raised (self s') (heap s' o).
Proof.
  intros Hinv (s1 & Hloop & Hset & _) o.
  rewrite filter_zone_loop_run in Hloop. rewrite objects_in_zone_setter_run in Hset.
  simplify_eq. rewrite setter_state_heap.
  assert (Hkeep : ∀ o', flags_raised (self s) (heap s o') →
            flags_raised (self s) (heap (loop_state objects s) o')).
  { intros o' Hr. destruct (decide (o' ∈ loop_list objects [] s)).
    - rewrite loop_heap_elem_of by done. unfold flags_raised. apply marked_idemp.
    - by rewrite loop_heap_not_elem_of. }
  unfold setter_state.
  destruct (list_eq _ _ _); cbn; rewrite ?loop_state_self.
  - intros Hin. by apply Hkeep, Hinv.
  - intros Hin. unfold flags_raised. change (marked (set_objects_in_zone ?l ?z)) with (marked z).
    rewrite loop_heap_elem_of by done. apply marked_idemp.
Qed.

(** ** The properties of [filter_zone] and [objects_in_zone_setter] *)

(** C1: [filter_zone] returns, and the list it hands to the setter is a
    subsequence of the batch: it holds, in the order of the batch and with
    no re-sorting, the objects of the batch that pass the three tests.  When
    the tests do not read the two flags, it is the batch filtered by the
    tests.  That list is what the call stores and publishes, when it stores
    or publishes anything. *)
Theorem filter_zone_preserves_order shared_frame objects s :
  ∃ acc s',
    filter_zone_returns shared_frame objects s acc s'
    ∧ acc `sublist_of` objects
    ∧ (∀ o, o ∈ acc ↔ o ∈ objects ∧ accepted (self s) (heap s o) = true)
    ∧ ((∀ d, accepted (self s) (marked (self s) d) = accepted (self s) d) →
       acc = List.filter (λ o, accepted (self s) (heap s o)) objects)
    ∧ ((self s' = self s ∧ dispatched s' = dispatched s)
       ∨ (objects_in_zone (self s') = acc
          ∧ ∃ ev, dispatched s' = dispatched s ++ [ev]
                  ∧ data_objects (data ev) = acc)).
Proof.
  eexists _, _. split; [apply filter_zone_returns_run|].
  split; [apply loop_list_sublist|].
  split; [intros o; apply loop_list_elem_of|].
  split; [apply loop_list_filter|].
  unfold setter_state.
  destruct (list_eq _ _ _); cbn; rewrite loop_state_self, loop_state_dispatched.
  - by left.
  - right. split; [done|]. by eexists.
Qed.

(** C2: an object whose label has no entry in [self._object_filters] is
    never in the list that [filter_zone] hands to the setter, wherever the
    object lies and whatever its other attributes are. *)
Theorem unfiltered_label_never_accepted shared_frame objects s o :
  object_filters (self s) !! DetectedObject.label (heap s o) = None →
  ∃ acc s', filter_zone_returns shared_frame objects s acc s' ∧ o ∉ acc.
Proof.
  intros Hnone. eexists _, _. split; [apply filter_zone_returns_run|].
  rewrite loop_list_elem_of. intros [_ (f & Hf & _)%accepted_has_filter]. congruence.
Qed.

(** C3: [filter_zone] changes the objects of its local list only: every
    other object is after the call what it was before.  In particular an
    object that passes its label filter and is not contained in the polygon
    is not in the list, and both its flags keep the values they had. *)
Theorem rejected_objects_untouched shared_frame objects s :
  ∃ acc s',
    filter_zone_returns shared_frame objects s acc s'
    ∧ (∀ o, o ∉ acc → heap s' o = heap s o)
    ∧ (∀ o, passes_filter (self s) (heap s o) = true →
            object_in_polygon (camera_resolution (self s)) (heap s o)
              (coordinates (self s)) = false →
            (o ∉ acc)
            ∧ DetectedObject.relevant (heap s' o) = DetectedObject.relevant (heap s o)
            ∧ DetectedObject.trigger_recorder (heap s' o)
              = DetectedObject.trigger_recorder (heap s o)).
Proof.
  eexists _, _. split; [apply filter_zone_returns_run|].
  rewrite setter_state_heap.
  assert (Hkeep : ∀ o, o ∉ loop_list objects [] s →
            heap (loop_state objects s) o = heap s o).
  { intros o. apply loop_heap_not_elem_of. }
  split; [done|]. intros o _ Hout.
  assert (Hnot : o ∉ loop_list objects [] s).
  { rewrite loop_list_elem_of.
    intros [_ (f & _ & _ & Hin)%accepted_has_filter]. congruence. }
  by rewrite Hkeep.
Qed.

(** C4: two evaluations in a row, from a state whose stored objects carry
    their raised flags (as after any earlier evaluation, or in a fresh zone)
    and with an [__eq__] that is transitive.  If the list of the second
    evaluation equals the list of the first, the second call leaves the zone
    as the first left it and dispatches nothing, so the two calls dispatch at
    most one event together. *)
Theorem second_evaluation_is_noop frame1 frame2 objects1 objects2 s :
  (∀ a b c, obj_eq a b = true → obj_eq b c = true → obj_eq a c = true) →
  (∀ o, o ∈ objects_in_zone (self s) → flags_raised (self s) (heap s o)) →
  ∃ acc1 s1 acc2 s2,
    filter_zone_returns frame1 objects1 s acc1 s1
    ∧ filter_zone_returns frame2 objects2 s1 acc2 s2
    ∧ (list_eq (heap s2) acc2 acc1 = true →
       self s2 = self s1
       ∧ dispatched s2 = dispatched s1
       ∧ ∃ evs, dispatched s2 = dispatched s ++ evs ∧ length evs ≤ 1).
Proof.
  intros Htrans Hinv.
  exists (loop_list objects1 [] s),
    (setter_state frame1 (loop_list objects1 [] s) (loop_state objects1 s)).
  eexists _, _.
  split; [apply filter_zone_returns_run|].
  split; [apply filter_zone_returns_run|].
  rewrite setter_state_heap.
  assert (Hraised : ∀ o, o ∈ loop_list objects1 [] s ++ objects_in_zone (self s) →
            flags_raised (self s) (heap (loop_state objects1 s) o)).
  { intros o Hin. destruct (decide (o ∈ loop_list objects1 [] s)) as [Hacc|Hacc].
    - rewrite loop_heap_elem_of by done. apply marked_idemp.
    - rewrite loop_heap_not_elem_of by done.
      apply Hinv. by apply elem_of_app in Hin as [?|?]. }
  remember (loop_list objects1 [] s) as acc1 eqn:Hacc1.
  remember (loop_state objects1 s) as t1 eqn:Ht1.
  assert (Hself1 : self t1 = self s) by (subst t1; apply loop_state_self).
  assert (Hdisp1 : dispatched t1 = dispatched s) by (subst t1; apply loop_state_dispatched).
  destruct (setter_state_cases frame1 acc1 t1) as [[Hfirst Hs1]|[Hfirst Hs1]];
    rewrite Hs1; clear Hs1.
  - (* the first call changed nothing: the zone still stores the old list *)
    remember (loop_list objects2 [] t1) as acc2 eqn:Hacc2.
    intros Heq.
    assert (Hstored : list_eq (heap (loop_state objects2 t1)) acc2
                        (objects_in_zone (self (loop_state objects2 t1))) = true).
    { rewrite loop_state_self.
      apply (list_eq_trans _ _ acc1); [done|done|].
      rewrite <- Hfirst. apply list_eq_ext. intros o Hin.
      rewrite Hself1 in Hin. apply Hraised in Hin. rewrite <- Hself1 in Hin.
      destruct (decide (o ∈ loop_list objects2 [] t1)).
      - by rewrite loop_heap_elem_of.
      - by rewrite loop_heap_not_elem_of. }
    destruct (setter_state_cases frame2 acc2 (loop_state objects2 t1))
      as [[_ Hs2]|[Hne _]]; [|congruence].
    rewrite Hs2, loop_state_self, loop_state_dispatched.
    split; [done|]. split; [done|].
    exists []. rewrite app_nil_r. split; [done|cbn; lia].
  - (* the first call stored and published its list *)
    set (s1 := mkState _ _ _ _).
    remember (loop_list objects2 [] s1) as acc2 eqn:Hacc2.
    intros Heq.
    destruct (setter_state_cases frame2 acc2 (loop_state objects2 s1))
      as [[_ Hs2]|[Hne _]].
    + rewrite Hs2, loop_state_self, loop_state_dispatched.
      split; [done|]. split; [done|].
      eexists [_]. cbn. rewrite Hdisp1. split; [done|lia].
    + rewrite loop_state_self in Hne. cbn in Hne. congruence.
Qed.

(** C5, with the value of the flag before the call taken into account:
    after [filter_zone], the "trigger recorder" flag of an accepted object
    is true if and only if its filter triggers the recorder or the flag was
    already true before the call. *)
Theorem trigger_recorder_after_filter_zone shared_frame objects s :
  ∃ acc s',
    filter_zone_returns shared_frame objects s acc s'
    ∧ ∀ o f,
        o ∈ acc →
        object_filters (self s) !! DetectedObject.label (heap s o) = Some f →
        (DetectedObject.trigger_recorder (heap s' o) = true
         ↔ Filter.trigger_recorder f = true
           ∨ DetectedObject.trigger_recorder (heap s o) = true).
Proof.
  eexists _, _. split; [apply filter_zone_returns_run|].
  intros o f Hin Hf.
  rewrite setter_state_heap, loop_heap_elem_of by done.
  rewrite (marked_trigger_recorder _ _ f) by done.
  rewrite orb_true_iff. tauto.
Qed.


(** C7: in the calls that [filter_zone] makes, every call of
    [object_in_polygon] on an object comes right after a lookup of the
    label of that object that found a filter, the indexing of the filters by
    that label and a call of [filter_object] on that object that returned
    true.  And [object_in_polygon] is not called at all on an object whose
    label has no filter or that its filter rejects. *)
Theorem polygon_test_follows_filter shared_frame objects s :
  ∃ acc s' trace,
    filter_zone_returns shared_frame objects s acc s'
    ∧ calls s' = calls s ++ trace
    ∧ (∀ pre o r post,
         trace = pre ++ ObjectInPolygon o r :: post →
         ∃ pre' f,
           object_filters (self s) !! DetectedObject.label (heap s o) = Some f
           ∧ pre = pre' ++ [FiltersGet (DetectedObject.label (heap s o)) true;
                            FiltersGetitem (DetectedObject.label (heap s o));
                            FilterObject o true])
    ∧ (∀ o r,
         (object_filters (self s) !! DetectedObject.label (heap s o) = None
          ∨ ∃ f, object_filters (self s) !! DetectedObject.label (heap s o) = Some f
                 ∧ Filter.filter_object f (heap s o) = false) →
         ObjectInPolygon o r ∉ trace).
Proof.
  eexists _, _, (loop_calls objects s). split; [apply filter_zone_returns_run|].
  split; [by rewrite setter_state_calls, loop_state_calls|].
  split; [intros pre o r post; apply loop_calls_guarded|].
  intros o r Hfail. apply loop_calls_not_invoked.
  unfold passes_filter. destruct Hfail as [->|(f & -> & Hf)]; done.
Qed.

(** C8: the setter compares the new list with the stored one element by
    element and in order, two references being equal when they are the same
    object or [__eq__] equates their objects.  When the lists are equal in
    that sense, also when they hold distinct objects, the call changes
    nothing and dispatches nothing; otherwise it stores the new list and
    dispatches one event. *)
Theorem change_detection_by_value shared_frame objects s :
  (Forall2 (ref_eq (heap s)) objects (objects_in_zone (self s)) →
   objects_in_zone_setter shared_frame objects s = Ok (tt, s))
  ∧ (¬ Forall2 (ref_eq (heap s)) objects (objects_in_zone (self s)) →
     ∃ s' ev,
       objects_in_zone_setter shared_frame objects s = Ok (tt, s')
       ∧ objects_in_zone (self s') = objects
       ∧ dispatched s' = dispatched s ++ [ev]).
Proof.
  rewrite objects_in_zone_setter_run, <- list_eq_Forall2.
  destruct (setter_state_cases shared_frame objects s) as [[Heq ->]|[Hne ->]].
  - split; [done|]. intros []. done.
  - split; [congruence|]. intros _. by eexists _, _.
Qed.

(** C9: [filter_zone] never lowers a flag: a "relevant" or "trigger
    recorder" flag that is true before the call is true after it. *)
Theorem flags_only_raised shared_frame objects s :
  ∃ acc s',
    filter_zone_returns shared_frame objects s acc s'
    ∧ ∀ o,
        (DetectedObject.relevant (heap s o) = true →
         DetectedObject.relevant (heap s' o) = true)
        ∧ (DetectedObject.trigger_recorder (heap s o) = true →
           DetectedObject.trigger_recorder (heap s' o) = true).
Proof.
  eexists _, _. split; [apply filter_zone_returns_run|].
  intros o. rewrite setter_state_heap.
  destruct (decide (o ∈ loop_list objects [] s)) as [Hin|Hout].
  - rewrite loop_heap_elem_of by done. split; intros Hflag.
    + apply marked_relevant.
    + apply loop_list_elem_of in Hin as [_ (f & Hf & _)%accepted_has_filter].
      rewrite (marked_trigger_recorder _ _ f) by done. by rewrite Hflag.
  - by rewrite loop_heap_not_elem_of.
Qed.

(** C10: for a registered camera [Zone.__init__] returns a zone whose
    stored list is empty, and an evaluation of that zone whose list is empty
    stores nothing new and dispatches no event. *)
Theorem fresh_zone_is_empty cameras camera_identifier cam mask zone_config :
  cameras !! camera_identifier = Some cam →
  ∃ z,
    Zone_init cameras camera_identifier mask zone_config = Ok z
    ∧ objects_in_zone z = []
    ∧ ∀ h events cs shared_frame objects,
        ∃ acc s',
          filter_zone_returns shared_frame objects (mkState h z events cs) acc s'
          ∧ (acc = [] → self s' = z ∧ dispatched s' = events).
Proof.
  intros Hcam. unfold Zone_init. rewrite Hcam. eexists. split; [done|].
  split; [done|].
  intros h events cs shared_frame objects.
  eexists _, _. split; [apply filter_zone_returns_run|].
  intros ->.
  destruct (setter_state_cases shared_frame []
              (loop_state objects (mkState h
                 (mkZone cam (generate_numpy_from_coordinates (CONFIG_COORDINATES zone_config))
                    (resolution cam) (CONFIG_ZONE_NAME zone_config) []
                    (init_object_filters (resolution cam) mask
                       (CONFIG_ZONE_LABELS zone_config) ∅))
                 events cs))) as [[_ ->]|[Hne _]].
  - by rewrite loop_state_self, loop_state_dispatched.
  - by rewrite loop_state_self in Hne.
Qed.

(** ** More lemmas on the loop, the comparison and strings *)

Lemma marked_extent z d : DetectedObject.extent (marked z d) = DetectedObject.extent d.
Proof.
  unfold marked.
  destruct (object_filters z !! DetectedObject.label d) as [f|];
    [destruct (Filter.trigger_recorder f)|]; done.
Qed.

Lemma accepted_same_config z z' d : same_config z z' → accepted z' d = accepted z d.
Proof. intros (_ & Hc & Hr & _ & Hf). unfold accepted. by rewrite Hc, Hr, Hf. Qed.

Lemma marked_same_config z z' d : same_config z z' → marked z' d = marked z d.
Proof. intros (_ & _ & _ & _ & Hf). unfold marked. by rewrite Hf. Qed.

Lemma same_config_refl z : same_config z z.
Proof. by repeat split. Qed.

Lemma same_config_trans z1 z2 z3 :
  same_config z1 z2 → same_config z2 z3 → same_config z1 z3.
Proof.
  intros (?&?&?&?&?) (?&?&?&?&?). repeat split; congruence.
Qed.

Lemma setter_state_same_config shared_frame objects s :
  same_config (self s) (self (setter_state shared_frame objects s)).
Proof.
  destruct (setter_state_cases shared_frame objects s) as [[_ ->]|[_ ->]];
    by repeat split.
Qed.

(** The store after the loop, at any object. *)
Lemma loop_heap_cases objects s o :
  (o ∈ loop_list objects [] s
   ∧ heap (loop_state objects s) o = marked (self s) (heap s o))
  ∨ ((o ∉ loop_list objects [] s) ∧ heap (loop_state objects s) o = heap s o).
Proof.
  destruct (decide (o ∈ loop_list objects [] s)).
  - left. split; [done|]. by apply loop_heap_elem_of.
  - right. split; [done|]. by apply loop_heap_not_elem_of.
Qed.

Lemma list_eq_refl h a : list_eq h a a = true.
Proof.
  induction a as [|x a IH]; [done|]. cbn.
  by rewrite bool_decide_eq_true_2, IH.
Qed.

Lemma list_eq_length h a b : list_eq h a b = true → length a = length b.
Proof. rewrite list_eq_Forall2. apply Forall2_length. Qed.

Lemma list_eq_nil_r h a : list_eq h a [] = true ↔ a = [].
Proof. destruct a; cbn; split; done. Qed.

Lemma list_eq_identity h a b :
  (∀ x y, obj_eq x y = false) → list_eq h a b = true → a = b.
Proof.
  intros Hid. revert b. induction a as [|x a IH]; intros [|y b]; cbn; try done.
  rewrite Hid, orb_false_r.
  intros [->%bool_decide_eq_true Hrest]%andb_true_iff. f_equal. by apply IH.
Qed.

Lemma loop_list_split objects1 objects2 acc s :
  loop_list (objects1 ++ objects2) acc s
  = loop_list objects2 (loop_list objects1 acc s) (loop_state objects1 s).
Proof.
  revert acc s. induction objects1 as [|obj rest IH]; intros acc s; [done|].
  cbn. apply IH.
Qed.

Lemma loop_state_split objects1 objects2 s :
  loop_state (objects1 ++ objects2) s = loop_state objects2 (loop_state objects1 s).
Proof.
  revert s. induction objects1 as [|obj rest IH]; intros s; [done|].
  cbn. apply IH.
Qed.

Lemma string_app_cons c a b : String c a +:+ b = String c (a +:+ b).
Proof. reflexivity. Qed.

Lemma string_app_assoc a b c : (a +:+ b) +:+ c = a +:+ (b +:+ c).
Proof.
  induction a as [|x a IH]; [done|]. by rewrite !string_app_cons, IH.
Qed.

Lemma string_app_length a b :
  String.length (a +:+ b) = String.length a + String.length b.
Proof.
  induction a as [|x a IH]; [done|]. rewrite string_app_cons. cbn. by rewrite IH.
Qed.

Lemma string_app_inv_tail a b c : a +:+ c = b +:+ c → a = b.
Proof.
  revert b. induction a as [|x a IH]; intros [|y b] Heq.
  - done.
  - apply (f_equal String.length) in Heq.
    rewrite !string_app_length in Heq. cbn in Heq. lia.
  - apply (f_equal String.length) in Heq.
    rewrite !string_app_length in Heq. cbn in Heq. lia.
  - rewrite !string_app_cons in Heq. injection Heq as -> Heq. f_equal. by apply IH.
Qed.

(** ** Further properties of the zone *)

Lemma init_object_filters_lookup res mask labels filters lbl :
  init_object_filters res mask labels filters !! lbl
  = match last (filter (λ c, CONFIG_LABEL_LABEL c = lbl) labels) with
    | Some c => Some (Filter_init res c mask)
    | None => filters !! lbl
    end.
Proof.
  revert filters. induction labels as [|c rest IH]; intros filters; [done|].
  cbn [init_object_filters]. rewrite IH, filter_cons.
  destruct (decide (CONFIG_LABEL_LABEL c = lbl)) as [<-|Hne].
  - rewrite last_cons.
    destruct (last (filter _ rest)); [done|]. by rewrite lookup_insert_eq.
  - destruct (last (filter _ rest)); [done|]. by rewrite lookup_insert_ne.
Qed.

Lemma filter_label_nil (labels : list LabelConfig) lbl :
  (∀ c, c ∈ labels → CONFIG_LABEL_LABEL c ≠ lbl) →
  filter (λ c, CONFIG_LABEL_LABEL c = lbl) labels = [].
Proof.
  induction labels as [|c rest IH]; intros Hnone; [done|].
  rewrite filter_cons_False by (apply Hnone; left).
  apply IH. intros c' Hin. apply Hnone. by right.
Qed.


(** X2: in the zone that [Zone.__init__] builds, the filter of a label is
    the one made from the last entry of [CONFIG_ZONE_LABELS] with that label
    (a later entry replaces an earlier one), with the resolution of the
    camera and the mask; a label with no entry has no filter. *)
Theorem zone_init_filter_registry cameras camera_identifier cam mask zone_config lbl :
  cameras !! camera_identifier = Some cam →
  ∃ z,
    Zone_init cameras camera_identifier mask zone_config = Ok z
    ∧ object_filters z !! lbl
      = (λ c, Filter_init (resolution cam) c mask)
        <$> last (filter (λ c, CONFIG_LABEL_LABEL c = lbl)
                    (CONFIG_ZONE_LABELS zone_config)).
Proof.
  intros Hcam. unfold Zone_init. rewrite Hcam. eexists. split; [done|].
  cbn [object_filters]. rewrite init_object_filters_lookup.
  by destruct (last _).
Qed.

(** X3: a zone built by [Zone.__init__] never accepts an object whose label
    is the label of no entry of [CONFIG_ZONE_LABELS], in any later
    evaluation and whatever the stored list has become. *)
Theorem zone_init_unconfigured_label_rejected
    cameras camera_identifier cam mask zone_config :
  cameras !! camera_identifier = Some cam →
  ∃ z,
    Zone_init cameras camera_identifier mask zone_config = Ok z
    ∧ ∀ s shared_frame objects o,
        same_config z (self s) →
        (∀ c, c ∈ CONFIG_ZONE_LABELS zone_config →
              CONFIG_LABEL_LABEL c ≠ DetectedObject.label (heap s o)) →
        ∃ acc s', filter_zone_returns shared_frame objects s acc s' ∧ o ∉ acc.
Proof.
  intros Hcam. unfold Zone_init. rewrite Hcam. eexists. split; [done|].
  intros s shared_frame objects o (_ & _ & _ & _ & Hfilters) Hnone.
  eexists _, _. split; [apply filter_zone_returns_run|].
  rewrite loop_list_elem_of. intros [_ (f & Hf & _)%accepted_has_filter].
  rewrite Hfilters in Hf. cbn [object_filters] in Hf.
  rewrite init_object_filters_lookup, filter_label_nil in Hf by done.
  by rewrite lookup_empty in Hf.
Qed.

(** X4: [filter_zone] writes nothing but the two flags: the label and the
    extent of every object are after the call what they were before. *)
Theorem filter_zone_keeps_label_and_extent shared_frame objects s :
  ∃ acc s',
    filter_zone_returns shared_frame objects s acc s'
    ∧ ∀ o, DetectedObject.label (heap s' o) = DetectedObject.label (heap s o)
           ∧ DetectedObject.extent (heap s' o) = DetectedObject.extent (heap s o).
Proof.
  eexists _, _. split; [apply filter_zone_returns_run|].
  intros o. rewrite setter_state_heap.
  destruct (loop_heap_cases objects s o) as [[_ ->]|[_ ->]]; [|done].
  by rewrite marked_label, marked_extent.
Qed.

(** X5: [filter_zone] leaves the camera, the polygon, the resolution, the
    name and the filters of the zone as they are, keeps the events dispatched
    so far and adds at most one. *)
Theorem filter_zone_keeps_configuration shared_frame objects s :
  ∃ acc s',
    filter_zone_returns shared_frame objects s acc s'
    ∧ same_config (self s) (self s')
    ∧ ∃ evs, dispatched s' = dispatched s ++ evs ∧ length evs ≤ 1.
Proof.
  eexists _, _. split; [apply filter_zone_returns_run|].
  split.
  - rewrite <- (loop_state_self objects s) at 1. apply setter_state_same_config.
  - destruct (setter_state_cases shared_frame (loop_list objects [] s)
                (loop_state objects s)) as [[_ ->]|[_ ->]];
      cbn [dispatched]; rewrite loop_state_dispatched.
    + exists []. rewrite app_nil_r. split; [done|cbn; lia].
    + eexists [_]. split; [done|cbn; lia].
Qed.

(** X6: every object that [filter_zone] accepts is flagged relevant when the
    call returns, and its label has a filter. *)
Theorem accepted_objects_are_relevant shared_frame objects s :
  ∃ acc s',
    filter_zone_returns shared_frame objects s acc s'
    ∧ ∀ o, o ∈ acc →
           DetectedObject.relevant (heap s' o) = true
           ∧ is_Some (object_filters (self s') !! DetectedObject.label (heap s' o)).
Proof.
  eexists _, _. split; [apply filter_zone_returns_run|].
  intros o Hin. rewrite setter_state_heap, loop_heap_elem_of by done.
  split; [apply marked_relevant|].
  destruct (setter_state_same_config shared_frame (loop_list objects [] s)
              (loop_state objects s)) as (_ & _ & _ & _ & ->).
  rewrite loop_state_self, marked_label.
  apply loop_list_elem_of in Hin as [_ (f & -> & _)%accepted_has_filter]. by eexists.
Qed.


(** X8: handing the same list to the setter twice in a row: the second
    call changes nothing and dispatches nothing, whatever [__eq__] is, since
    an object is always equal to itself for the comparison of lists. *)
Theorem setter_same_list_twice frame1 frame2 objects s :
  ∃ s1,
    objects_in_zone_setter frame1 objects s = Ok (tt, s1)
    ∧ objects_in_zone_setter frame2 objects s1 = Ok (tt, s1).
Proof.
  eexists. split; [apply objects_in_zone_setter_run|].
  rewrite objects_in_zone_setter_run. do 2 f_equal.
  destruct (setter_state_cases frame1 objects s) as [[Heq ->]|[_ ->]].
  - destruct (setter_state_cases frame2 objects s) as [[_ ->]|[Hne _]]; [done|].
    congruence.
  - set (s1 := mkState _ _ _ _).
    destruct (setter_state_cases frame2 objects s1) as [[_ ->]|[Hne _]]; [done|].
    cbn in Hne. by rewrite list_eq_refl in Hne.
Qed.

(** X9: a list whose length differs from the length of the stored list is
    always a change, whatever [__eq__] is: the setter stores it and
    dispatches one event that carries it. *)
Theorem setter_length_mismatch shared_frame objects s :
  length objects ≠ length (objects_in_zone (self s)) →
  ∃ s' ev,
    objects_in_zone_setter shared_frame objects s = Ok (tt, s')
    ∧ objects_in_zone (self s') = objects
    ∧ dispatched s' = dispatched s ++ [ev]
    ∧ data_objects (data ev) = objects.
Proof.
  intros Hlen. rewrite objects_in_zone_setter_run.
  destruct (setter_state_cases shared_frame objects s) as [[Heq _]|[_ ->]].
  - by apply list_eq_length in Heq.
  - by eexists _, _.
Qed.

(** X10: when [filter_zone] returns, the stored list equals the accepted
    list for the comparison of the setter, and so has its length, also when
    the call kept the list stored before. *)
Theorem stored_list_equals_accepted shared_frame objects s :
  ∃ acc s',
    filter_zone_returns shared_frame objects s acc s'
    ∧ list_eq (heap s') acc (objects_in_zone (self s')) = true
    ∧ length (objects_in_zone (self s')) = length acc.
Proof.
  eexists _, _. split; [apply filter_zone_returns_run|].
  assert (Heq : list_eq (heap (loop_state objects s)) (loop_list objects [] s)
                  (objects_in_zone
                     (self (setter_state shared_frame (loop_list objects [] s)
                              (loop_state objects s)))) = true).
  { destruct (setter_state_cases shared_frame (loop_list objects [] s)
                (loop_state objects s)) as [[Heq ->]|[_ ->]]; [done|].
    apply list_eq_refl. }
  rewrite setter_state_heap. split; [done|]. symmetry. by eapply list_eq_length.
Qed.

(** X11: for a class of objects that compares by identity only, the stored
    list is, after every call of [filter_zone], the list accepted by that
    call. *)
Theorem stored_list_is_accepted_by_identity shared_frame objects s :
  (∀ a b, obj_eq a b = false) →
  ∃ acc s',
    filter_zone_returns shared_frame objects s acc s'
    ∧ objects_in_zone (self s') = acc.
Proof.
  intros Hid. eexists _, _. split; [apply filter_zone_returns_run|].
  destruct (setter_state_cases shared_frame (loop_list objects [] s)
              (loop_state objects s)) as [[Heq ->]|[_ ->]]; [|done].
  symmetry. by eapply list_eq_identity.
Qed.

(** X12: the loop of [filter_zone] over a batch in two parts accepts what
    it accepts in the first part, followed by what it accepts in the second
    part run from the state that the first part leaves. *)
Theorem filter_zone_loop_app objects1 objects2 s :
  ∃ acc1 s1 acc2 s2,
    filter_zone_loop objects1 [] s = Ok (acc1, s1)
    ∧ filter_zone_loop objects2 [] s1 = Ok (acc2, s2)
    ∧ filter_zone_loop (objects1 ++ objects2) [] s = Ok (acc1 ++ acc2, s2).
Proof.
  eexists _, _, _, _. rewrite !filter_zone_loop_run.
  split; [done|]. split; [done|].
  by rewrite loop_list_split, loop_state_split, loop_list_app.
Qed.

Lemma count_calls_app kind log1 log2 :
  count_calls kind (log1 ++ log2) = count_calls kind log1 + count_calls kind log2.
Proof. unfold count_calls. by rewrite List.filter_app, length_app. Qed.

Lemma body_calls_counts z obj d :
  count_calls is_get_call (body_calls z obj d) = 1
  ∧ count_calls is_filter_call (body_calls z obj d) ≤ 1
  ∧ count_calls is_polygon_call (body_calls z obj d)
    ≤ count_calls is_filter_call (body_calls z obj d)
  ∧ count_calls is_polygon_hit (body_calls z obj d)
    = (if accepted z d then 1 else 0).
Proof.
  unfold body_calls, accepted.
  destruct (object_filters z !! DetectedObject.label d) as [f|]; [|cbn; lia].
  destruct (Filter.filter_object f d);
    [destruct (object_in_polygon (camera_resolution z) d (coordinates z))|];
    cbn; lia.
Qed.

Lemma loop_calls_counts objects s :
  count_calls is_get_call (loop_calls objects s) = length objects
  ∧ count_calls is_filter_call (loop_calls objects s) ≤ length objects
  ∧ count_calls is_polygon_call (loop_calls objects s)
    ≤ count_calls is_filter_call (loop_calls objects s)
  ∧ count_calls is_polygon_hit (loop_calls objects s)
    = length (loop_list objects [] s).
Proof.
  revert s. induction objects as [|obj rest IH]; intros s; [cbn; lia|].
  cbn [loop_calls]. rewrite loop_list_cons, length_app, !count_calls_app.
  destruct (IH (body_state obj s)) as (Hg & Hf & Hp & Hh).
  destruct (body_calls_counts (self s) obj (heap s obj)) as (Hg' & Hf' & Hp' & Hh').
  rewrite Hg, Hg', Hh, Hh'. cbn [length].
  destruct (accepted (self s) (heap s obj)); cbn [length]; lia.
Qed.

(** X13: the calls of one [filter_zone]: one lookup with [get] for each
    object of the batch, at most one call of [filter_object] for each, never
    more calls of [object_in_polygon] than of [filter_object], and as many
    accepted objects as calls of [object_in_polygon] that returned true. *)
Theorem filter_zone_call_counts shared_frame objects s :
  ∃ acc s' trace,
    filter_zone_returns shared_frame objects s acc s'
    ∧ calls s' = calls s ++ trace
    ∧ count_calls is_get_call trace = length objects
    ∧ count_calls is_filter_call trace ≤ length objects
    ∧ count_calls is_polygon_call trace ≤ count_calls is_filter_call trace
    ∧ count_calls is_polygon_hit trace = length acc.
Proof.
  eexists _, _, (loop_calls objects s). split; [apply filter_zone_returns_run|].
  split; [by rewrite setter_state_calls, loop_state_calls|].
  apply loop_calls_counts.
Qed.



(** X15: for one camera, the topic determines the zone: two zone names
    that give the same topic are the same name. *)
Theorem topic_determines_zone_name cam name1 name2 t :
  str_format EVENT_OBJECTS_IN_ZONE
    [("camera_identifier"%string, cam); ("zone_name"%string, name1)] = Ok t →
  str_format EVENT_OBJECTS_IN_ZONE
    [("camera_identifier"%string, cam); ("zone_name"%string, name2)] = Ok t →
  name1 = name2.
Proof.
  rewrite !str_format_topic. intros [= <-] [= Heq].
  apply (inj (String.append cam)) in Heq.
  apply (inj (String.append "/zone/")) in Heq.
  symmetry. by eapply string_app_inv_tail.
Qed.

(** X16: across cameras the topic does not determine the zone: the camera
    [a/zone/b] with the zone [c] and the camera [a] with the zone
    [b/zone/c] are distinct cameras whose events go to the same topic. *)
Theorem topic_collision_across_cameras a b c :
  a +:+ ("/zone/" +:+ b) ≠ a
  ∧ str_format EVENT_OBJECTS_IN_ZONE
      [("camera_identifier"%string, a +:+ ("/zone/" +:+ b)); ("zone_name"%string, c)]
    = str_format EVENT_OBJECTS_IN_ZONE
        [("camera_identifier"%string, a); ("zone_name"%string, b +:+ ("/zone/" +:+ c))].
Proof.
  split.
  - intros Heq. apply (f_equal String.length) in Heq.
    rewrite !string_app_length in Heq. cbn in Heq. lia.
  - rewrite !str_format_topic. f_equal. by rewrite !string_app_assoc.
Qed.

(** X17: the same batch evaluated twice in a row, with tests that do not
    read the two flags.  The second call accepts the same list, leaves every
    object as the first call left it, keeps the stored list and dispatches
    nothing, whatever [__eq__] is. *)
Theorem same_batch_twice frame1 frame2 objects s :
  (∀ d, accepted (self s) (marked (self s) d) = accepted (self s) d) →
  ∃ acc1 s1 acc2 s2,
    filter_zone_returns frame1 objects s acc1 s1
    ∧ filter_zone_returns frame2 objects s1 acc2 s2
    ∧ acc2 = acc1
    ∧ (∀ o, heap s2 o = heap s1 o)
    ∧ self s2 = self s1
    ∧ dispatched s2 = dispatched s1.
Proof.
  intros Hflags.
  exists (loop_list objects [] s),
    (setter_state frame1 (loop_list objects [] s) (loop_state objects s)).
  eexists _, _.
  split; [apply filter_zone_returns_run|].
  split; [apply filter_zone_returns_run|].
  remember (setter_state frame1 (loop_list objects [] s) (loop_state objects s))
    as s1 eqn:Hs1.
  assert (Hcfg : same_config (self s) (self s1)).
  { subst s1. rewrite <- (loop_state_self objects s) at 1.
    apply setter_state_same_config. }
  assert (Hheap1 : ∀ o, heap s1 o = heap (loop_state objects s) o).
  { intros o. subst s1. by rewrite setter_state_heap. }
  assert (Hraised : ∀ o, o ∈ loop_list objects [] s →
            marked (self s) (heap s1 o) = heap s1 o).
  { intros o Hin. rewrite Hheap1, loop_heap_elem_of by done. apply marked_idemp. }
  assert (Htests : ∀ o, accepted (self s1) (heap s1 o) = accepted (self s) (heap s o)).
  { intros o. rewrite (accepted_same_config (self s)), Hheap1 by done.
    destruct (loop_heap_cases objects s o) as [[_ ->]|[_ ->]]; [|done].
    apply Hflags. }
  assert (Hacc : loop_list objects [] s1 = loop_list objects [] s).
  { rewrite !loop_list_filter.
    - by apply List.filter_ext.
    - done.
    - intros d. rewrite (marked_same_config (self s)) by done.
      rewrite !(accepted_same_config (self s) (self s1)) by done. apply Hflags. }
  assert (Hheap2 : ∀ o, heap (loop_state objects s1) o = heap s1 o).
  { intros o. destruct (loop_heap_cases objects s1 o) as [[Hin ->]|[_ ->]]; [|done].
    rewrite (marked_same_config (self s)) by done.
    apply Hraised. by rewrite <- Hacc. }
  split; [done|]. rewrite setter_state_heap. split; [done|].
  assert (Hstored : list_eq (heap (loop_state objects s1)) (loop_list objects [] s1)
                      (objects_in_zone (self (loop_state objects s1))) = true).
  { rewrite loop_state_self, Hacc.
    rewrite (list_eq_ext (heap s1)) by (intros o _; apply Hheap2).
    subst s1.
    destruct (setter_state_cases frame1 (loop_list objects [] s)
                (loop_state objects s)) as [[Hfirst ->]|[_ ->]]; [done|].
    apply list_eq_refl. }
  destruct (setter_state_cases frame2 (loop_list objects [] s1)
              (loop_state objects s1)) as [[_ ->]|[Hne _]]; [|congruence].
  by rewrite loop_state_self, loop_state_dispatched.
Qed.

(** X18: an invariant of the stored list: if every stored object is flagged
    relevant, so is every stored object after [filter_zone], whether the
    call replaced the list or kept it. *)
Theorem stored_objects_stay_relevant shared_frame objects s :
  (∀ o, o ∈ objects_in_zone (self s) → DetectedObject.relevant (heap s o) = true) →
  ∃ acc s',
    filter_zone_returns shared_frame objects s acc s'
    ∧ ∀ o, o ∈ objects_in_zone (self s') →
           DetectedObject.relevant (heap s' o) = true.
Proof.
  intros Hinv. eexists _, _. split; [apply filter_zone_returns_run|].
  intros o. rewrite setter_state_heap.
  destruct (setter_state_cases shared_frame (loop_list objects [] s)
              (loop_state objects s)) as [[_ ->]|[_ ->]].
  - rewrite loop_state_self. intros Hin.
    destruct (loop_heap_cases objects s o) as [[_ ->]|[_ ->]];
      [apply marked_relevant|by apply Hinv].
  - cbn [self objects_in_zone set_objects_in_zone]. intros Hin.
    rewrite loop_heap_elem_of by done. apply marked_relevant.
Qed.

End Zone.

(** ** The scenarios of the specification, run on the code *)

Section Scenarios.
Import Scenario.

Abbreviation run_filter_zone := (filter_zone in_bounds value_eq).

(** A person in the middle of the zone: accepted, flagged relevant, and one
    event with that object. *)
Example scenario_person_inside :
  ∃ s', run_filter_zone 1 [0] fresh = Ok (tt, s')
        ∧ objects_in_zone (self s') = [0]
        ∧ DetectedObject.relevant (heap s' 0) = true
        ∧ DetectedObject.trigger_recorder (heap s' 0) = false
        ∧ map (λ ev, (topic ev, data_objects (data ev))) (dispatched s')
          = [("cam1/zone/yard/objects"%string, [0])].
Proof. eexists. split; [vm_compute; reflexivity|]. vm_compute. done. Qed.

(** A car, for which the zone has no filter: nothing accepted, and no
    event since the stored list was empty already. *)
Example scenario_car_unfiltered :
  ∃ s', run_filter_zone 1 [1] fresh = Ok (tt, s')
        ∧ objects_in_zone (self s') = []
        ∧ DetectedObject.relevant (heap s' 1) = false
        ∧ dispatched s' = [].
Proof. eexists. split; [vm_compute; reflexivity|]. vm_compute. done. Qed.

(** The same person in two batches in a row: one event, not two. *)
Example scenario_person_twice :
  ∃ s1 s2, run_filter_zone 1 [0] fresh = Ok (tt, s1)
           ∧ run_filter_zone 2 [0] s1 = Ok (tt, s2)
           ∧ objects_in_zone (self s2) = [0]
           ∧ map (λ ev, data_shared_frame (data ev)) (dispatched s2) = [1].
Proof.
  eexists _, _. split; [vm_compute; reflexivity|].
  split; [vm_compute; reflexivity|]. vm_compute. done.
Qed.

(** A mixed batch: the stored list keeps the order of the batch, and the
    calls show which tests each object went through. *)
Example scenario_mixed_batch :
  ∃ s', run_filter_zone 1 [5; 1; 0; 3; 2; 4] fresh = Ok (tt, s')
        ∧ objects_in_zone (self s') = [5; 0; 4]
        ∧ calls s'
          = [FiltersGet "truck" true; FiltersGetitem "truck"; FilterObject 5 true;
             ObjectInPolygon 5 true; FiltersGetitem "truck";
             FiltersGet "car" false;
             FiltersGet "person" true; FiltersGetitem "person"; FilterObject 0 true;
             ObjectInPolygon 0 true; FiltersGetitem "person";
             FiltersGet "dog" true; FiltersGetitem "dog"; FilterObject 3 false;
             FiltersGet "person" true; FiltersGetitem "person"; FilterObject 2 true;
             ObjectInPolygon 2 false;
             FiltersGet "person" true; FiltersGetitem "person"; FilterObject 4 true;
             ObjectInPolygon 4 true; FiltersGetitem "person"].
Proof. eexists. split; [vm_compute; reflexivity|]. vm_compute. done. Qed.

(** [Zone.__init__] on the configuration of the scenario builds its zone. *)
Example scenario_zone_init :
  Zone_init (λ p, p) (λ _ c _, c.2) fst cameras "cam1" tt zone_config = Ok zone.
Proof. vm_compute. reflexivity. Qed.

Lemma value_eq_trans (a b c : Obj) :
  value_eq a b = true → value_eq b c = true → value_eq a c = true.
Proof. unfold value_eq. rewrite !bool_decide_eq_true. congruence. Qed.

(** ** The properties at concrete inputs *)

(** The order of the stored list at a mixed batch. *)
Lemma filter_zone_preserves_order_witness :
  ∃ acc s',
    filter_zone_returns in_bounds value_eq 1 [5; 1; 0; 3; 2; 4] fresh acc s'
    ∧ acc `sublist_of` [5; 1; 0; 3; 2; 4]
    ∧ 0 ∈ acc.
Proof.
  destruct (filter_zone_preserves_order in_bounds value_eq 1 [5; 1; 0; 3; 2; 4] fresh)
    as (acc & s' & Hret & Hsub & Hmem & _ & _).
  exists acc, s'. split; [exact Hret|]. split; [exact Hsub|].
  apply Hmem. split; [|reflexivity].
  do 2 apply list_elem_of_further. apply list_elem_of_here.
Defined.

(** The car, object 1, is not accepted. *)
Lemma unfiltered_label_never_accepted_witness :
  ∃ acc s', filter_zone_returns in_bounds value_eq 1 [0; 1; 2] fresh acc s' ∧ 1 ∉ acc.
Proof.
  apply (unfiltered_label_never_accepted in_bounds value_eq 1 [0; 1; 2] fresh 1).
  vm_compute. reflexivity.
Defined.

(** The person outside the zone, object 2, keeps its flags. *)
Lemma rejected_objects_untouched_witness :
  ∃ acc s',
    filter_zone_returns in_bounds value_eq 1 [0; 1; 2; 3] fresh acc s'
    ∧ (2 ∉ acc)
    ∧ DetectedObject.relevant (heap s' 2) = false
    ∧ DetectedObject.trigger_recorder (heap s' 2) = false.
Proof.
  destruct (rejected_objects_untouched in_bounds value_eq 1 [0; 1; 2; 3] fresh)
    as (acc & s' & Hret & _ & Hout).
  exists acc, s'. split; [exact Hret|].
  apply (Hout 2); vm_compute; reflexivity.
Defined.

(** A zone that stores object 7 and sees object 0, equal to it in value,
    twice: no event. *)
Lemma second_evaluation_is_noop_witness :
  ∃ acc1 s1 acc2 s2,
    filter_zone_returns in_bounds value_eq 1 [0] seen acc1 s1
    ∧ filter_zone_returns in_bounds value_eq 2 [0] s1 acc2 s2
    ∧ (list_eq value_eq (heap s2) acc2 acc1 = true →
       self s2 = self s1
       ∧ dispatched s2 = dispatched s1
       ∧ ∃ evs, dispatched s2 = dispatched seen ++ evs ∧ length evs ≤ 1).
Proof.
  apply (second_evaluation_is_noop in_bounds value_eq 1 2 [0] [0] seen).
  - exact value_eq_trans.
  - intros o Hin. apply list_elem_of_singleton in Hin. rewrite Hin.
    vm_compute. reflexivity.
Defined.

(** The flag of an accepted object need not follow its filter: the
    filter for persons does not trigger the recorder, and the flag of
    object 4 is true after the call because it was true before. *)
Lemma trigger_recorder_iff_counterexample :
  ∃ acc s' f,
    filter_zone_returns in_bounds value_eq 1 [4] fresh acc s'
    ∧ 4 ∈ acc
    ∧ object_filters (self fresh) !! DetectedObject.label (heap fresh 4) = Some f
    ∧ ¬ (DetectedObject.trigger_recorder (heap s' 4) = true
         ↔ Filter.trigger_recorder f = true).
Proof.
  eexists _, _, _. split.
  { eexists. split; [vm_compute; reflexivity|].
    split; vm_compute; reflexivity. }
  split; [apply list_elem_of_here|].
  split; [vm_compute; reflexivity|].
  vm_compute. intros [Hflag _]. specialize (Hflag eq_refl). discriminate Hflag.
Qed.

(** The flag after the call at the truck, object 5, and at object 4. *)
Lemma trigger_recorder_after_filter_zone_witness :
  ∃ acc s',
    filter_zone_returns in_bounds value_eq 1 [4; 5] fresh acc s'
    ∧ (5 ∈ acc → DetectedObject.trigger_recorder (heap s' 5) = true)
    ∧ (4 ∈ acc → DetectedObject.trigger_recorder (heap s' 4) = true).
Proof.
  destruct (trigger_recorder_after_filter_zone in_bounds value_eq 1 [4; 5] fresh)
    as (acc & s' & Hret & Hiff).
  exists acc, s'. split; [exact Hret|]. split; intros Hin.
  - apply (Hiff 5 truck_filter Hin); [vm_compute; reflexivity|]. left. reflexivity.
  - apply (Hiff 4 person_filter Hin); [vm_compute; reflexivity|]. right. reflexivity.
Defined.


(** Neither the car nor the dog is tested against the polygon. *)
Lemma polygon_test_follows_filter_witness :
  ∃ acc s' trace,
    filter_zone_returns in_bounds value_eq 1 [0; 1; 2; 3] fresh acc s'
    ∧ calls s' = trace
    ∧ (∀ r, ObjectInPolygon 1 r ∉ trace)
    ∧ (∀ r, ObjectInPolygon 3 r ∉ trace).
Proof.
  destruct (polygon_test_follows_filter in_bounds value_eq 1 [0; 1; 2; 3] fresh)
    as (acc & s' & trace & Hret & Hcalls & _ & Hnot).
  exists acc, s', trace. split; [exact Hret|]. split; [exact Hcalls|].
  split; intros r; apply Hnot.
  - left. vm_compute. reflexivity.
  - right. exists dog_filter. split; vm_compute; reflexivity.
Defined.

(** Two distinct objects, 8 and 7, that are equal in value: no change. *)
Lemma change_detection_by_value_witness :
  8 ≠ 7 ∧ objects_in_zone_setter value_eq 2 [8] seen = Ok (tt, seen).
Proof.
  split; [discriminate|].
  apply (change_detection_by_value value_eq 2 [8] seen).
  apply Forall2_cons; split; [|apply Forall2_nil_2]. right. vm_compute. reflexivity.
Defined.

(** Object 4, whose "trigger recorder" flag is true before the call, and
    object 7, whose "relevant" flag is, keep them. *)
Lemma flags_only_raised_witness :
  ∃ acc s',
    filter_zone_returns in_bounds value_eq 1 [0; 2; 4] fresh acc s'
    ∧ DetectedObject.trigger_recorder (heap s' 4) = true
    ∧ DetectedObject.relevant (heap s' 7) = true.
Proof.
  destruct (flags_only_raised in_bounds value_eq 1 [0; 2; 4] fresh)
    as (acc & s' & Hret & Hflags).
  exists acc, s'. split; [exact Hret|]. split.
  - apply (Hflags 4). reflexivity.
  - apply (Hflags 7). reflexivity.
Defined.

(** The zone built from the configuration of the scenario. *)
Lemma fresh_zone_is_empty_witness :
  ∃ z,
    Zone_init (λ p, p) (λ _ c _, c.2) fst cameras "cam1" tt zone_config = Ok z
    ∧ objects_in_zone z = []
    ∧ ∃ acc s',
        filter_zone_returns in_bounds value_eq 1 [1; 2; 3] (mkState store z [] []) acc s'
        ∧ (acc = [] → self s' = z ∧ dispatched s' = []).
Proof.
  destruct (fresh_zone_is_empty in_bounds value_eq (λ p, p) (λ _ c _, c.2) fst
              cameras "cam1" cam tt zone_config)
    as (z & Hinit & Hempty & Hquiet).
  - vm_compute. reflexivity.
  - exists z. split; [exact Hinit|]. split; [exact Hempty|].
    apply (Hquiet store [] [] 1 [1; 2; 3]).
Defined.

(** ** The further properties at concrete inputs *)

Lemma scenario_filters_constant l f (d d' : Obj) :
  filters !! l = Some f → Filter.filter_object f d = Filter.filter_object f d'.
Proof.
  unfold filters. intros Hf.
  repeat (apply lookup_insert_Some in Hf as [[_ <-]|[_ Hf]]; [done|]).
  by rewrite lookup_empty in Hf.
Qed.

Lemma scenario_tests_ignore_flags (d : Obj) :
  accepted in_bounds zone (marked zone d) = accepted in_bounds zone d.
Proof.
  unfold accepted. rewrite marked_label. cbn [object_filters zone].
  match goal with
  | |- context [@lookup ?K ?A ?M ?L ?k ?m] =>
      destruct (@lookup K A M L k m) as [f|] eqn:Hf; [|done]
  end.
  f_equal.
  - exact (scenario_filters_constant _ f (marked zone d) d Hf).
  - unfold in_bounds. by rewrite marked_extent.
Qed.


(** Two entries for persons: the second one gives the filter. *)
Lemma zone_init_filter_registry_witness :
  ∃ z,
    Zone_init (λ p, p) (λ _ c _, c.2) fst cameras "cam1" tt zone_config_twice = Ok z
    ∧ object_filters z !! "person"%string = Some person_filter.
Proof.
  destruct (zone_init_filter_registry (λ p, p) (λ _ c _, c.2) fst cameras "cam1" cam
              tt zone_config_twice "person")
    as (z & Hinit & Hlookup).
  - vm_compute. reflexivity.
  - exists z. split; [exact Hinit|].
    etrans; [exact Hlookup|]. vm_compute. reflexivity.
Defined.

(** No entry for cars: the zone of the scenario never accepts object 1. *)
Lemma zone_init_unconfigured_label_rejected_witness :
  ∃ acc s', filter_zone_returns in_bounds value_eq 1 [0; 1; 2] fresh acc s' ∧ 1 ∉ acc.
Proof.
  destruct (zone_init_unconfigured_label_rejected in_bounds value_eq (λ p, p)
              (λ _ c _, c.2) fst cameras "cam1" cam tt zone_config)
    as (z & Hinit & Hnever).
  - vm_compute. reflexivity.
  - rewrite scenario_zone_init in Hinit. injection Hinit as <-.
    apply (Hnever fresh 1 [0; 1; 2] 1).
    + repeat split.
    + intros c Hin Heq.
      repeat (apply elem_of_cons in Hin as [->|Hin]; [discriminate Heq|]).
      by apply elem_of_nil in Hin.
Defined.

(** Object 0 is relevant once accepted. *)
Lemma accepted_objects_are_relevant_witness :
  ∃ acc s',
    filter_zone_returns in_bounds value_eq 1 [0; 2] fresh acc s'
    ∧ (0 ∈ acc → DetectedObject.relevant (heap s' 0) = true).
Proof.
  destruct (accepted_objects_are_relevant in_bounds value_eq 1 [0; 2] fresh)
    as (acc & s' & Hret & Hrel).
  exists acc, s'. split; [exact Hret|]. intros Hin. apply (Hrel 0 Hin).
Defined.


(** Two objects against one stored object. *)
Lemma setter_length_mismatch_witness :
  ∃ s' ev,
    objects_in_zone_setter value_eq 1 [0; 2] seen = Ok (tt, s')
    ∧ objects_in_zone (self s') = [0; 2]
    ∧ dispatched s' = dispatched seen ++ [ev]
    ∧ data_objects (data ev) = [0; 2].
Proof.
  apply (setter_length_mismatch value_eq 1 [0; 2] seen). discriminate.
Defined.

(** With the comparison by identity, the zone that stores object 7 stores
    object 0 after it accepted object 0. *)
Lemma stored_list_is_accepted_by_identity_witness :
  ∃ acc s',
    filter_zone_returns in_bounds identity_eq 1 [0] seen acc s'
    ∧ objects_in_zone (self s') = acc.
Proof.
  apply (stored_list_is_accepted_by_identity in_bounds identity_eq 1 [0] seen).
  intros a b. reflexivity.
Defined.


(** One camera, one topic, one zone name. *)
Lemma topic_determines_zone_name_witness : "yard"%string = "yard"%string.
Proof.
  apply (topic_determines_zone_name "cam1" "yard" "yard" "cam1/zone/yard/objects");
    reflexivity.
Defined.

(** The mixed batch of the scenario, twice. *)
Lemma same_batch_twice_witness :
  ∃ acc1 s1 acc2 s2,
    filter_zone_returns in_bounds value_eq 1 [5; 1; 0; 3; 2; 4] fresh acc1 s1
    ∧ filter_zone_returns in_bounds value_eq 2 [5; 1; 0; 3; 2; 4] s1 acc2 s2
    ∧ acc2 = acc1
    ∧ (∀ o, heap s2 o = heap s1 o)
    ∧ self s2 = self s1
    ∧ dispatched s2 = dispatched s1.
Proof.
  apply (same_batch_twice in_bounds value_eq 1 2 [5; 1; 0; 3; 2; 4] fresh).
  exact scenario_tests_ignore_flags.
Defined.

(** The stored object 7 is relevant, and the stored objects stay so. *)
Lemma stored_objects_stay_relevant_witness :
  ∃ acc s',
    filter_zone_returns in_bounds value_eq 1 [0; 2] seen acc s'
    ∧ ∀ o, o ∈ objects_in_zone (self s') →
           DetectedObject.relevant (heap s' o) = true.
Proof.
  apply (stored_objects_stay_relevant in_bounds value_eq 1 [0; 2] seen).
  intros o Hin. apply list_elem_of_singleton in Hin. rewrite Hin. reflexivity.
Defined.

End Scenarios.
